(* Shallow embedding of shelly::hap::StatelessSwitch
   (src/shelly_hap_stateless_switch.cpp): the HAP "stateless programmable
   switch" adapter that turns raw input events into HAP switch events. *)

From Stdlib Require Import ZArith String List Bool Lia.
Import ListNotations.
Open Scope Z_scope.

(* ------------------------------------------------------------------ *)
(** * Types of the collaborators *)

(** [Input::Event]: the raw events of the input subsystem. *)
Inductive Event : Type :=
| kChange
| kSingle
| kDouble
| kLong
| kReset.

(** [InMode]: the input modes stored in [cfg_->in_mode] as an int. *)
Definition kMomentary : Z := 0.
Definition kToggleShort : Z := 1.
Definition kToggleShortLong : Z := 2.

(** HAP ADK values of the Programmable Switch Event characteristic. *)
Definition kHAPCharacteristicValue_ProgrammableSwitchEvent_SinglePress : Z := 0.
Definition kHAPCharacteristicValue_ProgrammableSwitchEvent_DoublePress : Z := 1.
Definition kHAPCharacteristicValue_ProgrammableSwitchEvent_LongPress : Z := 2.

Inductive HAPError : Type :=
| kHAPError_None
| kHAPError_InvalidState.

Inductive Status : Type :=
| StatusOK
| STATUS_INVALID_ARGUMENT.

(** [struct mgos_config_ssw]: the configuration record (name, in_mode). *)
Record mgos_config_ssw : Type := mk_cfg {
  name : string;
  in_mode : Z
}.

(** The adapter's mutable state.  [last_ev_ts] is the value of
    [mgos_uptime()] at the last [RaiseEvent] (0 = never);
    [notifications] counts the calls of [HAPAccessoryServerRaiseEvent]
    on the event characteristic. *)
Record StatelessSwitch : Type := mk_ssw {
  id : Z;
  cfg : mgos_config_ssw;
  last_ev : Z;
  last_ev_ts : Z;
  notifications : nat
}.

(** Modelled from the spec: the header's initial values of the members
    declared in shelly_hap_stateless_switch.h (not in src): the last event
    value is 0 and the timestamp 0, meaning "never". *)
Definition new_StatelessSwitch (id0 : Z) (c : mgos_config_ssw) : StatelessSwitch :=
  {| id := id0; cfg := c; last_ev := 0; last_ev_ts := 0; notifications := 0 |}.

(* ------------------------------------------------------------------ *)
(** * RaiseEvent and InputEventHandler *)

(** [RaiseEvent(ev)]: [now] is the reading of [mgos_uptime()]. *)
Definition RaiseEvent (s : StatelessSwitch) (ev : Z) (now : Z) : StatelessSwitch :=
  {| id := id s;
     cfg := cfg s;
     last_ev := ev;
     last_ev_ts := now;
     notifications := S (notifications s) |}.

(** [InputEventHandler(ev, state)]: the switch on
    [static_cast<InMode>(cfg_->in_mode)]; a value outside the enum matches
    no case. *)
Definition InputEventHandler (s : StatelessSwitch) (ev : Event) (state : bool)
    (now : Z) : StatelessSwitch :=
  let in_mode0 := in_mode (cfg s) in
  if in_mode0 =? kMomentary then
    match ev with
    | kSingle =>
        RaiseEvent s kHAPCharacteristicValue_ProgrammableSwitchEvent_SinglePress now
    | kDouble =>
        RaiseEvent s kHAPCharacteristicValue_ProgrammableSwitchEvent_DoublePress now
    | kLong =>
        RaiseEvent s kHAPCharacteristicValue_ProgrammableSwitchEvent_LongPress now
    | kChange | kReset => s
    end
  else if (in_mode0 =? kToggleShort) || (in_mode0 =? kToggleShortLong) then
    match ev with
    | kChange =>
        if (in_mode0 =? kToggleShortLong) && negb state then
          RaiseEvent s kHAPCharacteristicValue_ProgrammableSwitchEvent_DoublePress now
        else
          RaiseEvent s kHAPCharacteristicValue_ProgrammableSwitchEvent_SinglePress now
    | _ => s
    end
  else s.

(** The translation table of the spec (section 4.2), written from its
    words: mode, raw event and raw state to the standardized event. *)
Definition spec_translation (mode : Z) (ev : Event) (state : bool) : option Z :=
  if mode =? 0 then
    match ev with
    | kSingle => Some 0
    | kDouble => Some 1
    | kLong => Some 2
    | _ => None
    end
  else if mode =? 1 then
    match ev with kChange => Some 0 | _ => None end
  else if mode =? 2 then
    match ev with kChange => if state then Some 0 else Some 1 | _ => None end
  else None.

(* ------------------------------------------------------------------ *)
(** * Read handlers *)

(** [HandleEventRead]: the returned error and the value written to
    [*value] ([None] when it is left untouched). *)
Definition HandleEventRead (s : StatelessSwitch) : HAPError * option Z :=
  if last_ev_ts s =? 0 then (kHAPError_InvalidState, None)
  else (kHAPError_None, Some (last_ev s)).

(** Conversion of an int to [uint8_t]. *)
Definition to_uint8 (x : Z) : Z := x mod 256.

(** [HandleServiceLabelIndexRead]: [*value = id()] stores the int id into
    a [uint8_t]. *)
Definition HandleServiceLabelIndexRead (s : StatelessSwitch) : HAPError * option Z :=
  (kHAPError_None, Some (to_uint8 (id s))).

(* ------------------------------------------------------------------ *)
(** * SetConfig *)

(** The fields [json_scanf(..., "{name: %Q, in_mode: %d}", ...)] extracts
    from the payload: [None] for a key that is absent. *)
Record config_payload : Type := mk_payload {
  p_name : option string;
  p_in_mode : option Z
}.

(** [SetConfig(config_json, &restart_required)]: returns the status, the
    value written to [*restart_required] and the new adapter state. *)
Definition SetConfig (s : StatelessSwitch) (p : config_payload)
    : Status * bool * StatelessSwitch :=
  let name0 := p_name p in
  let in_mode0 := match p_in_mode p with Some m => m | None => -1 end in
  let restart_required := false in
  (* Validation. *)
  if match name0 with Some n => 64 <? Z.of_nat (String.length n) | None => false end
  then (STATUS_INVALID_ARGUMENT, restart_required, s)
  else if (in_mode0 <? 0) || (in_mode0 >? 2)
  then (STATUS_INVALID_ARGUMENT, restart_required, s)
  else
    (* Now copy over. *)
    let '(name1, restart_required) :=
      match name0 with
      | Some n => if negb (String.eqb n (name (cfg s))) then (n, true)
                  else (name (cfg s), restart_required)
      | None => (name (cfg s), restart_required)
      end in
    (StatusOK, restart_required,
     {| id := id s;
        cfg := {| name := name1; in_mode := in_mode0 |};
        last_ev := last_ev s;
        last_ev_ts := last_ev_ts s;
        notifications := notifications s |}).

(* ------------------------------------------------------------------ *)
(** * Init: IID allocation *)

(** Conversion to [uint16_t]. *)
Definition to_uint16 (x : Z) : Z := x mod 65536.

(** The service and characteristic IIDs assigned by [Init]. *)
Record HAPService : Type := mk_svc {
  svc_iid : Z;
  name_iid : Z;
  ev_iid : Z;
  sli_iid : Z
}.

Section Init.

(** [IID_BASE_STATELESS_SWITCH] and [IID_STEP_STATELESS_SWITCH] are
    constants of a header that is not in src; Init is stated for any value
    of them. *)
Variables IID_BASE_STATELESS_SWITCH IID_STEP_STATELESS_SWITCH : Z.

(** [Init()]: [in_present] says whether [in_ != nullptr].  The int
    expression [IID_BASE + IID_STEP * id1] is stored into a [uint16_t]
    and each [iid++] wraps in 16 bits. *)
Definition Init (in_present : bool) (id0 : Z) : Status * option HAPService :=
  if negb in_present then (STATUS_INVALID_ARGUMENT, None)
  else
    let id1 := id0 - 1 in
    let iid := to_uint16 (IID_BASE_STATELESS_SWITCH + IID_STEP_STATELESS_SWITCH * id1) in
    let svc := iid in
    let iid := to_uint16 (iid + 1) in
    let name_c := iid in
    let iid := to_uint16 (iid + 1) in
    let ev_c := iid in
    let iid := to_uint16 (iid + 1) in
    let sli_c := iid in
    (StatusOK, Some {| svc_iid := svc; name_iid := name_c;
                       ev_iid := ev_c; sli_iid := sli_c |}).

End Init.

(* ------------------------------------------------------------------ *)
(** * Operations driven by the host *)

(** What the framework, the input subsystem and the management layer can
    do to an initialised adapter; [now] is [mgos_uptime()] when an input
    event is dispatched. *)
Inductive op : Type :=
| OpInput (ev : Event) (state : bool) (now : Z)
| OpSetConfig (p : config_payload)
| OpReadEvent
| OpReadServiceLabelIndex.

Definition step (s : StatelessSwitch) (o : op) : StatelessSwitch :=
  match o with
  | OpInput ev st now => InputEventHandler s ev st now
  | OpSetConfig p => let '(_, _, s') := SetConfig s p in s'
  | OpReadEvent | OpReadServiceLabelIndex => s
  end.

Fixpoint run (s : StatelessSwitch) (os : list op) : StatelessSwitch :=
  match os with
  | [] => s
  | o :: os' => run (step s o) os'
  end.

(* ------------------------------------------------------------------ *)
(** * GetInfo *)

(** The values [GetInfo] prints with
    ["{id: %d, type: %d, name: %Q, in_mode: %d, last_ev: %d, last_ev_age: %.3f}"]. *)
Record info : Type := mk_info {
  i_id : Z;
  i_type : Z;
  i_name : string;
  i_in_mode : Z;
  i_last_ev : Z;
  i_last_ev_age : Z
}.

(** [GetInfo()]: [ty] is [type()] (a header constant) and [now] the reading
    of [mgos_uptime()]; the age is -1 unless [last_ev_ts_ > 0]. *)
Definition GetInfo (s : StatelessSwitch) (ty : Z) (now : Z) : info :=
  let last_ev_age := if last_ev_ts s >? 0 then now - last_ev_ts s else -1 in
  {| i_id := id s; i_type := ty; i_name := name (cfg s);
     i_in_mode := in_mode (cfg s); i_last_ev := last_ev s;
     i_last_ev_age := last_ev_age |}.

(* ------------------------------------------------------------------ *)
(** * The characteristics Init registers *)

Inductive HAPCharacteristicType : Type :=
| kHAPCharacteristicType_Name
| kHAPCharacteristicType_ProgrammableSwitchEvent
| kHAPCharacteristicType_ServiceLabelIndex.

(** [StringCharacteristic(iid, type, max_len, value)] and
    [UInt8Characteristic(iid, type, min, max, step, read_handler,
    supports_notification)]; the name's value is backed by [cfg_->name]. *)
Inductive Characteristic : Type :=
| StringCharacteristic (iid : Z) (ty : HAPCharacteristicType) (max_len : Z)
    (value : StatelessSwitch -> string)
| UInt8Characteristic (iid : Z) (ty : HAPCharacteristicType) (min max step : Z)
    (read_handler : StatelessSwitch -> HAPError * option Z)
    (supports_notification : bool).

(** [hap_chars_] after [Init]: name, programmable switch event, service
    label index, then the [nullptr] terminator ([None]). *)
Definition hap_chars_of (svc : HAPService) : list (option Characteristic) :=
  [Some (StringCharacteristic (name_iid svc) kHAPCharacteristicType_Name 64
           (fun s => name (cfg s)));
   Some (UInt8Characteristic (ev_iid svc)
           kHAPCharacteristicType_ProgrammableSwitchEvent 0 2 1
           HandleEventRead true);
   Some (UInt8Characteristic (sli_iid svc)
           kHAPCharacteristicType_ServiceLabelIndex 1 255 1
           HandleServiceLabelIndexRead false);
   None].

(** Every uptime reading of a trace lies in [0, now]. *)
Definition times_upto (now : Z) (os : list op) : Prop :=
  Forall (fun o => match o with OpInput _ _ t => 0 <= t <= now | _ => True end) os.

(* ------------------------------------------------------------------ *)
(** * Tests on concrete inputs *)

Definition cfg0 : mgos_config_ssw := {| name := "Switch 1"; in_mode := 2 |}.
Definition ssw0 : StatelessSwitch := new_StatelessSwitch 1 cfg0.

Example test_toggle_off :
  HandleEventRead (InputEventHandler ssw0 kChange false 7) = (kHAPError_None, Some 1).
Proof. reflexivity. Qed.

Example test_read_before : HandleEventRead ssw0 = (kHAPError_InvalidState, None).
Proof. reflexivity. Qed.

Example test_setconfig_name_only :
  let '(st, rr, _) := SetConfig ssw0 {| p_name := Some "x"%string; p_in_mode := None |} in
  (st, rr) = (STATUS_INVALID_ARGUMENT, false).
Proof. reflexivity. Qed.

Example test_init :
  Init 1024 4 true 2 = (StatusOK, Some {| svc_iid := 1028; name_iid := 1029;
                                           ev_iid := 1030; sli_iid := 1031 |}).
Proof. reflexivity. Qed.

(* ------------------------------------------------------------------ *)
(** * Frame lemmas *)

(** The handler agrees with the spec's table on every input. *)
Lemma InputEventHandler_table : forall s ev st now,
  InputEventHandler s ev st now =
  match spec_translation (in_mode (cfg s)) ev st with
  | Some v => RaiseEvent s v now
  | None => s
  end.
Proof.
  intros s ev st now. unfold InputEventHandler, spec_translation.
  unfold kMomentary, kToggleShort, kToggleShortLong; cbv zeta.
  destruct (in_mode (cfg s) =? 0); [destruct ev; reflexivity|].
  destruct (Z.eqb_spec (in_mode (cfg s)) 1) as [E1|E1],
    (Z.eqb_spec (in_mode (cfg s)) 2) as [E2|E2];
    [lia | | |]; destruct ev, st; reflexivity.
Qed.

(** One step either leaves the event state alone or raises one event. *)
Lemma step_frame : forall s o,
  (notifications (step s o) = notifications s /\
   last_ev (step s o) = last_ev s /\
   last_ev_ts (step s o) = last_ev_ts s) \/
  (notifications (step s o) = S (notifications s) /\
   exists v now, step s o = RaiseEvent s v now).
Proof.
  intros s [ev st now | p | | ]; simpl; auto.
  - rewrite InputEventHandler_table.
    destruct (spec_translation (in_mode (cfg s)) ev st) as [v|]; auto.
    right; split; [reflexivity | exists v, now; reflexivity].
  - unfold SetConfig.
    destruct (match p_name p with Some n => _ | None => false end); auto.
    destruct (_ || _); auto.
    destruct (match p_name p with Some n => _ | None => _ end); auto.
Qed.

Lemma run_notifications_mono : forall os s,
  (notifications s <= notifications (run s os))%nat.
Proof.
  induction os as [|o os IH]; intros s; simpl; [lia|].
  specialize (IH (step s o)).
  destruct (step_frame s o) as [[Hn _] | [Hn _]]; lia.
Qed.

Lemma run_frame : forall os s,
  notifications (run s os) = notifications s ->
  last_ev (run s os) = last_ev s /\ last_ev_ts (run s os) = last_ev_ts s.
Proof.
  induction os as [|o os IH]; intros s Hn; simpl in *; [auto|].
  destruct (step_frame s o) as [[Hn1 [He Ht]] | [Hn1 _]].
  - rewrite <- He, <- Ht. apply IH. congruence.
  - pose proof (run_notifications_mono os (step s o)). lia.
Qed.

Lemma step_id : forall s o, id (step s o) = id s.
Proof.
  intros s [ev st now | p | | ]; simpl; auto.
  - rewrite InputEventHandler_table.
    destruct (spec_translation _ _ _); reflexivity.
  - unfold SetConfig.
    destruct (match p_name p with Some n => _ | None => false end); auto.
    destruct (_ || _); auto.
    destruct (match p_name p with Some n => _ | None => _ end); auto.
Qed.

Lemma run_id : forall os s, id (run s os) = id s.
Proof.
  induction os as [|o os IH]; intros s; simpl; [reflexivity|].
  rewrite IH. apply step_id.
Qed.

Lemma spec_translation_range : forall m ev st v,
  spec_translation m ev st = Some v -> 0 <= v <= 2.
Proof.
  intros m ev st v. unfold spec_translation.
  destruct (m =? 0); [destruct ev; intros H; inversion H; lia|].
  destruct (m =? 1); [destruct ev; intros H; inversion H; lia|].
  destruct (m =? 2); [destruct ev, st; intros H; inversion H; lia|].
  discriminate.
Qed.

Lemma to_uint16_succ : forall x, to_uint16 (to_uint16 x + 1) = to_uint16 (x + 1).
Proof. intros x. unfold to_uint16. apply Zplus_mod_idemp_l. Qed.

Lemma to_uint16_inj_small : forall x i j,
  0 <= i <= 3 -> 0 <= j <= 3 -> to_uint16 (x + i) = to_uint16 (x + j) -> i = j.
Proof.
  intros x i j Hi Hj. unfold to_uint16. intros Heq.
  pose proof (Z.div_mod (x + i) 65536 ltac:(lia)).
  pose proof (Z.div_mod (x + j) 65536 ltac:(lia)).
  lia.
Qed.

Lemma to_uint16_small : forall x, 0 <= x < 65536 -> to_uint16 x = x.
Proof. intros x Hx. unfold to_uint16. apply Z.mod_small; exact Hx. Qed.

(* ------------------------------------------------------------------ *)
(** * Input translation *)

(** C1: in each of the three modes, the handler raises exactly the
    standardized event of the table: Momentary maps single, double and long
    presses to SinglePress, DoublePress and LongPress; ToggleShort maps a
    change to SinglePress; ToggleShortLong maps a change to DoublePress when
    the new state is false and to SinglePress when it is true. *)
Theorem InputEventHandler_translation_table : forall s st now,
  (in_mode (cfg s) = kMomentary ->
     InputEventHandler s kSingle st now =
       RaiseEvent s kHAPCharacteristicValue_ProgrammableSwitchEvent_SinglePress now /\
     InputEventHandler s kDouble st now =
       RaiseEvent s kHAPCharacteristicValue_ProgrammableSwitchEvent_DoublePress now /\
     InputEventHandler s kLong st now =
       RaiseEvent s kHAPCharacteristicValue_ProgrammableSwitchEvent_LongPress now) /\
  (in_mode (cfg s) = kToggleShort ->
     InputEventHandler s kChange st now =
       RaiseEvent s kHAPCharacteristicValue_ProgrammableSwitchEvent_SinglePress now) /\
  (in_mode (cfg s) = kToggleShortLong ->
     InputEventHandler s kChange false now =
       RaiseEvent s kHAPCharacteristicValue_ProgrammableSwitchEvent_DoublePress now /\
     InputEventHandler s kChange true now =
       RaiseEvent s kHAPCharacteristicValue_ProgrammableSwitchEvent_SinglePress now).
Proof.
  intros s st now.
  repeat rewrite InputEventHandler_table.
  split; [|split]; intros Hm; rewrite Hm; repeat split; destruct st; reflexivity.
Qed.

Lemma InputEventHandler_translation_table_witness :
  in_mode (cfg ssw0) = kToggleShortLong /\
  InputEventHandler ssw0 kChange false 5 =
    RaiseEvent ssw0 kHAPCharacteristicValue_ProgrammableSwitchEvent_DoublePress 5.
Proof.
  split; [reflexivity|].
  apply (proj2 (proj2 (InputEventHandler_translation_table ssw0 true 5)) eq_refl).
Defined.

(** C4: a (mode, raw event, state) combination outside the table raises
    nothing: the handler leaves the adapter unchanged, so no notification
    is sent and the last event and its timestamp stay as they were. *)
Theorem InputEventHandler_ignores_unlisted : forall s ev st now,
  spec_translation (in_mode (cfg s)) ev st = None ->
  InputEventHandler s ev st now = s /\
  notifications (InputEventHandler s ev st now) = notifications s /\
  last_ev (InputEventHandler s ev st now) = last_ev s /\
  last_ev_ts (InputEventHandler s ev st now) = last_ev_ts s.
Proof.
  intros s ev st now Hnone.
  rewrite InputEventHandler_table, Hnone. auto.
Qed.

Lemma InputEventHandler_ignores_unlisted_witness :
  spec_translation (in_mode (cfg ssw0)) kSingle true = None /\
  InputEventHandler ssw0 kSingle true 5 = ssw0.
Proof.
  split; [reflexivity|].
  apply (proj1 (InputEventHandler_ignores_unlisted ssw0 kSingle true 5 eq_refl)).
Defined.

(* ------------------------------------------------------------------ *)
(** * The event characteristic *)

(** C2: reading the event characteristic fails with InvalidState as long
    as no RaiseEvent has happened since construction; after
    [RaiseEvent(v)] (at a nonzero uptime), every read returns [v] until the
    next RaiseEvent, whatever operations come in between. *)
Theorem HandleEventRead_last_raised :
  (forall id0 c os,
     notifications (run (new_StatelessSwitch id0 c) os) = 0%nat ->
     HandleEventRead (run (new_StatelessSwitch id0 c) os) =
       (kHAPError_InvalidState, None)) /\
  (forall s v now os,
     now <> 0 ->
     notifications (run (RaiseEvent s v now) os) = notifications (RaiseEvent s v now) ->
     HandleEventRead (run (RaiseEvent s v now) os) = (kHAPError_None, Some v)).
Proof.
  split.
  - intros id0 c os Hn.
    destruct (run_frame os (new_StatelessSwitch id0 c) Hn) as [_ Hts].
    unfold HandleEventRead. rewrite Hts. reflexivity.
  - intros s v now os Hnow Hn.
    destruct (run_frame os (RaiseEvent s v now) Hn) as [Hev Hts].
    unfold HandleEventRead. rewrite Hev, Hts. simpl.
    destruct (Z.eqb_spec now 0) as [E|E]; [contradiction | reflexivity].
Qed.

Definition trace_quiet : list op :=
  [OpSetConfig {| p_name := Some "Hall"%string; p_in_mode := Some 0 |};
   OpInput kChange true 3; OpReadEvent; OpReadServiceLabelIndex].

Lemma HandleEventRead_last_raised_witness :
  HandleEventRead (run (new_StatelessSwitch 1 cfg0) trace_quiet) =
    (kHAPError_InvalidState, None) /\
  HandleEventRead (run (RaiseEvent ssw0 2 9) trace_quiet) = (kHAPError_None, Some 2).
Proof.
  split.
  - apply (proj1 HandleEventRead_last_raised); vm_compute; reflexivity.
  - apply (proj2 HandleEventRead_last_raised); [lia | vm_compute; reflexivity].
Defined.

(** C10: from construction on, whatever the operations and the mode, the
    stored last event value stays in [{0,1,2}] (SinglePress, DoublePress,
    LongPress): the handler only raises these three constants. *)
Theorem last_ev_in_range : forall id0 c os,
  0 <= last_ev (run (new_StatelessSwitch id0 c) os) <= 2.
Proof.
  intros id0 c os.
  assert (Hgen : forall s, 0 <= last_ev s <= 2 -> 0 <= last_ev (run s os) <= 2).
  { induction os as [|o os IH]; intros s Hs; simpl; [exact Hs|].
    apply IH.
    destruct o as [ev st now | p | | ]; simpl; auto.
    - rewrite InputEventHandler_table.
      destruct (spec_translation (in_mode (cfg s)) ev st) as [v|] eqn:Ev; auto.
      simpl. eapply spec_translation_range; eauto.
    - destruct (step_frame s (OpSetConfig p)) as [[_ [He _]] | [Hn _]].
      + simpl in He. rewrite He. exact Hs.
      + exfalso. simpl in Hn. unfold SetConfig in Hn.
        destruct (match p_name p with Some n => _ | None => false end); [lia|].
        destruct (_ || _); [lia|].
        destruct (match p_name p with Some n => _ | None => _ end); simpl in Hn; lia. }
  apply Hgen. simpl. lia.
Qed.

(* ------------------------------------------------------------------ *)
(** * SetConfig *)

(** C3: when [in_mode] is absent or outside [{0,1,2}], SetConfig reports
    InvalidArgument and leaves the adapter (configuration name and in_mode
    included) unchanged; a payload with only a name is such a payload. *)
Theorem SetConfig_rejects_bad_in_mode : forall s p,
  (p_in_mode p = None \/ exists m, p_in_mode p = Some m /\ (m < 0 \/ 2 < m)) ->
  SetConfig s p = (STATUS_INVALID_ARGUMENT, false, s).
Proof.
  intros s p Hm. unfold SetConfig.
  destruct (match p_name p with Some n => _ | None => false end); [reflexivity|].
  destruct Hm as [-> | [m [-> Hm]]]; [reflexivity|].
  destruct Hm as [Hm|Hm].
  - replace (m <? 0) with true by (symmetry; apply Z.ltb_lt; exact Hm). reflexivity.
  - replace (m >? 2) with true by (symmetry; apply Z.gtb_lt; exact Hm).
    rewrite orb_true_r. reflexivity.
Qed.

Lemma SetConfig_rejects_bad_in_mode_witness :
  SetConfig ssw0 {| p_name := Some "Porch"%string; p_in_mode := None |} =
    (STATUS_INVALID_ARGUMENT, false, ssw0).
Proof.
  apply SetConfig_rejects_bad_in_mode. left; reflexivity.
Defined.

(** C6: a name longer than 64 characters makes SetConfig report
    InvalidArgument and leave the adapter unchanged. *)
Theorem SetConfig_rejects_long_name : forall s p n,
  p_name p = Some n ->
  (64 < String.length n)%nat ->
  SetConfig s p = (STATUS_INVALID_ARGUMENT, false, s).
Proof.
  intros s p n Hn Hlen. unfold SetConfig. rewrite Hn.
  replace (64 <? Z.of_nat (String.length n)) with true
    by (symmetry; apply Z.ltb_lt; lia).
  reflexivity.
Qed.

Definition name65 : string :=
  "ABCDEFGHIJKLMNOPQRSTUVWXYZABCDEFGHIJKLMNOPQRSTUVWXYZABCDEFGHIJKLM".

Lemma SetConfig_rejects_long_name_witness :
  SetConfig ssw0 {| p_name := Some name65; p_in_mode := Some 1 |} =
    (STATUS_INVALID_ARGUMENT, false, ssw0).
Proof.
  apply (SetConfig_rejects_long_name _ _ name65); [reflexivity | vm_compute; lia].
Defined.

(** C5: on success, a present name that differs from the stored one is
    written and [*restart_required] becomes true; with the name absent or
    equal to the stored one, [*restart_required] stays false and the name is
    kept; the validated in_mode is always written. *)
Theorem SetConfig_success : forall s p rr s',
  SetConfig s p = (StatusOK, rr, s') ->
  (forall n, p_name p = Some n -> n <> name (cfg s) ->
     name (cfg s') = n /\ rr = true) /\
  (p_name p = None \/ p_name p = Some (name (cfg s)) ->
     name (cfg s') = name (cfg s) /\ rr = false) /\
  (exists m, p_in_mode p = Some m /\ 0 <= m <= 2 /\ in_mode (cfg s') = m).
Proof.
  intros s p rr s' H. unfold SetConfig in H.
  destruct (match p_name p with Some n => _ | None => false end); [discriminate|].
  destruct (p_in_mode p) as [m|] eqn:Em; [|discriminate].
  destruct (Z.ltb_spec m 0); [discriminate|].
  destruct (Z.gtb_spec m 2); [simpl in H; discriminate|]. simpl in H.
  destruct (p_name p) as [n|] eqn:En.
  - destruct (String.eqb_spec n (name (cfg s))) as [E|E]; simpl in H;
      inversion H; subst; simpl.
    + split; [intros n' Hn' Hne; inversion Hn'; congruence|].
      split; [auto|]. exists m; repeat split; lia.
    + split; [intros n' Hn' _; inversion Hn'; auto|].
      split; [intros [Hc|Hc]; inversion Hc; congruence|].
      exists m; repeat split; lia.
  - inversion H; subst; simpl.
    split; [intros n' Hc; discriminate|].
    split; [auto|]. exists m; repeat split; lia.
Qed.

Definition porch_payload : config_payload :=
  {| p_name := Some "Porch"%string; p_in_mode := Some 1 |}.

Lemma SetConfig_success_witness :
  name (cfg (snd (SetConfig ssw0 porch_payload))) = "Porch"%string /\
  snd (fst (SetConfig ssw0 porch_payload)) = true.
Proof.
  apply (proj1 (SetConfig_success ssw0 porch_payload true
                  (snd (SetConfig ssw0 porch_payload)) eq_refl));
    [reflexivity | discriminate].
Defined.

(** C9: [*restart_required] is set to false before validation, so every
    InvalidArgument return reports [restart_required = false] (and leaves
    the adapter unchanged). *)
Theorem SetConfig_error_restart_false : forall s p st rr s',
  SetConfig s p = (st, rr, s') ->
  st = STATUS_INVALID_ARGUMENT ->
  rr = false /\ s' = s.
Proof.
  intros s p st rr s' H Hst. subst st. unfold SetConfig in H.
  destruct (match p_name p with Some n => _ | None => false end);
    [inversion H; auto|].
  destruct (_ || _); [inversion H; auto|].
  destruct (match p_name p with Some n => _ | None => _ end); discriminate.
Qed.

Definition bad_mode_payload : config_payload :=
  {| p_name := None; p_in_mode := Some 7 |}.

Lemma SetConfig_error_restart_false_witness :
  snd (fst (SetConfig ssw0 bad_mode_payload)) = false.
Proof.
  exact (proj1 (SetConfig_error_restart_false ssw0 bad_mode_payload
                  STATUS_INVALID_ARGUMENT false ssw0 eq_refl eq_refl)).
Defined.

(* ------------------------------------------------------------------ *)
(** * IID allocation *)

(** With [id = 65537] the int [IID_BASE + IID_STEP * id1] leaves the
    16-bit range, for any base IID in that range and any nonzero step:
    the stored service IID is not [BASE + STEP*(id-1)]. *)
Lemma Init_service_iid_wraps :
  exists id0, forall B S, 0 <= B < 65536 -> S <> 0 ->
    option_map svc_iid (snd (Init B S true id0)) <> Some (B + S * (id0 - 1)).
Proof.
  exists 65537. intros B S HB HS. simpl.
  unfold to_uint16.
  replace (B + S * (65537 - 1)) with (B + S * 65536) by lia.
  rewrite Z_mod_plus_full, Z.mod_small by exact HB.
  intros Heq. inversion Heq. lia.
Qed.

(** C7 (amended): Init computes the service IID as
    [BASE + STEP*(id-1)] stored into a [uint16_t] (so modulo 2^16) and gives
    the name, event and service-label-index characteristics the next three
    values, each increment wrapping in 16 bits.  The four IIDs are pairwise
    distinct, are a function of [id] alone, and equal
    [BASE + STEP*(id-1)] .. [BASE + STEP*(id-1) + 3] whenever these lie in
    [0, 65535]. *)
Theorem Init_iid_allocation : forall B S id0,
  let base := B + S * (id0 - 1) in
  Init B S true id0 =
    (StatusOK, Some {| svc_iid := to_uint16 base;
                       name_iid := to_uint16 (base + 1);
                       ev_iid := to_uint16 (base + 2);
                       sli_iid := to_uint16 (base + 3) |}) /\
  NoDup [to_uint16 base; to_uint16 (base + 1); to_uint16 (base + 2);
         to_uint16 (base + 3)] /\
  (0 <= base -> base + 3 < 65536 ->
     to_uint16 base = base /\ to_uint16 (base + 1) = base + 1 /\
     to_uint16 (base + 2) = base + 2 /\ to_uint16 (base + 3) = base + 3).
Proof.
  intros B S id0 base.
  split; [|split].
  - unfold Init; simpl. fold base.
    rewrite !to_uint16_succ.
    replace (base + 1 + 1) with (base + 2) by lia.
    replace (base + 2 + 1) with (base + 3) by lia.
    reflexivity.
  - replace (to_uint16 base) with (to_uint16 (base + 0))
      by (rewrite Z.add_0_r; reflexivity).
    repeat apply NoDup_cons; try apply NoDup_nil;
      simpl; intros Hin; repeat destruct Hin as [Hin|Hin]; try contradiction;
      match type of Hin with
      | to_uint16 (base + ?i) = to_uint16 (base + ?j) =>
          pose proof (to_uint16_inj_small base i j ltac:(lia) ltac:(lia) Hin); lia
      end.
  - intros H0 H3. repeat split; apply to_uint16_small; lia.
Qed.

Lemma Init_iid_allocation_witness :
  to_uint16 (1024 + 4 * (2 - 1)) = 1028 /\ to_uint16 (1024 + 4 * (2 - 1) + 3) = 1031.
Proof.
  destruct (proj2 (proj2 (Init_iid_allocation 1024 4 2)) ltac:(lia) ltac:(lia))
    as [H0 [_ [_ H3]]].
  split; [exact H0 | exact H3].
Defined.

(* ------------------------------------------------------------------ *)
(** * The service label index characteristic *)

Definition ssw256 : StatelessSwitch := new_StatelessSwitch 256 cfg0.

(** An adapter with id 256 reads back 0: [*value = id()] truncates to
    [uint8_t]. *)
Lemma ServiceLabelIndex_truncates :
  HandleServiceLabelIndexRead ssw256 = (kHAPError_None, Some 0) /\ id ssw256 = 256.
Proof. split; reflexivity. Qed.

(** C8 (amended): whatever operations have run (events, configuration
    changes, reads), reading the service label index succeeds and returns
    the adapter's id truncated to 8 bits ([id mod 256]), which is the id
    itself for ids in [0, 255]. *)
Theorem ServiceLabelIndex_is_id : forall s os,
  HandleServiceLabelIndexRead (run s os) = (kHAPError_None, Some (to_uint8 (id s))) /\
  (0 <= id s <= 255 ->
     HandleServiceLabelIndexRead (run s os) = (kHAPError_None, Some (id s))).
Proof.
  intros s os. unfold HandleServiceLabelIndexRead. rewrite run_id.
  split; [reflexivity|].
  intros Hid. unfold to_uint8. rewrite Z.mod_small by lia. reflexivity.
Qed.

Lemma ServiceLabelIndex_is_id_witness :
  HandleServiceLabelIndexRead (run ssw0 trace_quiet) = (kHAPError_None, Some 1).
Proof.
  apply (proj2 (ServiceLabelIndex_is_id ssw0 trace_quiet)). simpl; lia.
Defined.

(* ------------------------------------------------------------------ *)
(** * Further properties of the adapter *)

(** SetConfig either rejects the payload and leaves the adapter as it was,
    or stores a validated in_mode and a name that is the old one or the
    payload's (at most 64 characters), touching nothing else. *)
Lemma SetConfig_cases : forall s p,
  SetConfig s p = (STATUS_INVALID_ARGUMENT, false, s) \/
  exists rr m n',
    SetConfig s p =
      (StatusOK, rr,
       {| id := id s; cfg := {| name := n'; in_mode := m |};
          last_ev := last_ev s; last_ev_ts := last_ev_ts s;
          notifications := notifications s |}) /\
    p_in_mode p = Some m /\ 0 <= m <= 2 /\
    (n' = name (cfg s) \/ (p_name p = Some n' /\ (String.length n' <= 64)%nat)).
Proof.
  intros s p. unfold SetConfig.
  destruct (p_name p) as [n|] eqn:En.
  - destruct (Z.ltb_spec 64 (Z.of_nat (String.length n))) as [Hl|Hl]; [left; reflexivity|].
    destruct (p_in_mode p) as [m|] eqn:Em; [|left; reflexivity].
    destruct (Z.ltb_spec m 0); [left; reflexivity|].
    destruct (Z.gtb_spec m 2); [left; reflexivity|]. simpl.
    right. destruct (negb (n =? name (cfg s))%string).
    + exists true, m, n. repeat split; try lia. right; split; [reflexivity | lia].
    + exists false, m, (name (cfg s)). repeat split; try lia. left; reflexivity.
  - destruct (p_in_mode p) as [m|] eqn:Em; [|left; reflexivity].
    destruct (Z.ltb_spec m 0); [left; reflexivity|].
    destruct (Z.gtb_spec m 2); [left; reflexivity|]. simpl.
    right. exists false, m, (name (cfg s)). repeat split; try lia. left; reflexivity.
Qed.

(** The handler either does nothing or raises one of the three events at
    the given uptime; it never touches the id or the configuration. *)
Lemma InputEventHandler_cases : forall s ev st now,
  InputEventHandler s ev st now = s \/
  exists v, 0 <= v <= 2 /\ InputEventHandler s ev st now = RaiseEvent s v now.
Proof.
  intros s ev st now. rewrite InputEventHandler_table.
  destruct (spec_translation (in_mode (cfg s)) ev st) as [v|] eqn:E; [|left; reflexivity].
  right. exists v. split; [eapply spec_translation_range; eauto | reflexivity].
Qed.

Lemma run_last_ev_range : forall os s,
  0 <= last_ev s <= 2 -> 0 <= last_ev (run s os) <= 2.
Proof.
  induction os as [|o os IH]; intros s Hs; simpl; [exact Hs|].
  apply IH. destruct o as [ev st now | p | | ]; simpl; auto.
  - destruct (InputEventHandler_cases s ev st now) as [-> | [v [Hv ->]]]; auto.
  - destruct (SetConfig_cases s p) as [-> | [rr [m [n' [-> _]]]]]; auto.
Qed.

Lemma run_cfg_valid : forall os s,
  0 <= in_mode (cfg s) <= 2 -> (String.length (name (cfg s)) <= 64)%nat ->
  0 <= in_mode (cfg (run s os)) <= 2 /\ (String.length (name (cfg (run s os))) <= 64)%nat.
Proof.
  induction os as [|o os IH]; intros s Hm Hn; simpl; [auto|].
  apply IH; destruct o as [ev st now | p | | ]; simpl; auto;
    try (destruct (InputEventHandler_cases s ev st now) as [-> | [v [_ ->]]]; auto);
    destruct (SetConfig_cases s p) as [-> | [rr [m [n' [-> [_ [Hm' Hn']]]]]]]; simpl; auto;
    destruct Hn' as [-> | [_ Hl]]; auto.
Qed.

Lemma run_ts_upto : forall now os s,
  0 <= last_ev_ts s <= now -> times_upto now os -> 0 <= last_ev_ts (run s os) <= now.
Proof.
  intros now. induction os as [|o os IH]; intros s Hs Ht; simpl; [exact Hs|].
  inversion Ht as [|o' os' Ho Hos]; subst.
  apply IH; [|exact Hos]. destruct o as [ev st t | p | | ]; simpl; auto.
  - destruct (InputEventHandler_cases s ev st t) as [-> | [v [_ ->]]]; simpl; auto.
  - destruct (SetConfig_cases s p) as [-> | [rr [m [n' [-> _]]]]]; auto.
Qed.

(** GetInfo before any event: as long as no event has been raised since
    construction, GetInfo reports last_ev 0 and last_ev_age -1. *)
Theorem GetInfo_no_event : forall id0 c os ty now,
  notifications (run (new_StatelessSwitch id0 c) os) = 0%nat ->
  i_last_ev (GetInfo (run (new_StatelessSwitch id0 c) os) ty now) = 0 /\
  i_last_ev_age (GetInfo (run (new_StatelessSwitch id0 c) os) ty now) = -1.
Proof.
  intros id0 c os ty now Hn.
  destruct (run_frame os (new_StatelessSwitch id0 c) Hn) as [He Ht].
  unfold GetInfo; simpl. rewrite He, Ht. split; reflexivity.
Qed.

Lemma GetInfo_no_event_witness :
  i_last_ev_age (GetInfo (run (new_StatelessSwitch 1 cfg0) trace_quiet) 4 100) = -1.
Proof.
  apply (GetInfo_no_event 1 cfg0 trace_quiet 4 100). vm_compute. reflexivity.
Defined.

(** GetInfo after an event: after RaiseEvent(v) at a positive uptime [t],
    and until the next RaiseEvent, GetInfo reports last_ev = v and an age
    of [now - t]. *)
Theorem GetInfo_after_event : forall s v t os ty now,
  0 < t ->
  notifications (run (RaiseEvent s v t) os) = notifications (RaiseEvent s v t) ->
  i_last_ev (GetInfo (run (RaiseEvent s v t) os) ty now) = v /\
  i_last_ev_age (GetInfo (run (RaiseEvent s v t) os) ty now) = now - t.
Proof.
  intros s v t os ty now Ht Hn.
  destruct (run_frame os (RaiseEvent s v t) Hn) as [He Hts].
  unfold GetInfo; simpl. rewrite He, Hts. simpl.
  destruct (Z.gtb_spec t 0); [split; reflexivity | lia].
Qed.

Lemma GetInfo_after_event_witness :
  i_last_ev_age (GetInfo (run (RaiseEvent ssw0 1 40) trace_quiet) 4 100) = 60.
Proof.
  apply (GetInfo_after_event ssw0 1 40 trace_quiet 4 100); [lia | vm_compute; reflexivity].
Defined.

(** The two tests of "an event has happened" agree: on every state reached
    from construction by operations whose uptime readings lie in
    [0, now], the event read fails exactly when GetInfo reports age -1, and
    when it succeeds with [v], GetInfo reports last_ev = v and a
    nonnegative age. *)
Theorem HandleEventRead_GetInfo_agree : forall id0 c os ty now,
  0 <= now ->
  times_upto now os ->
  let s := run (new_StatelessSwitch id0 c) os in
  match HandleEventRead s with
  | (kHAPError_None, Some v) =>
      i_last_ev (GetInfo s ty now) = v /\ 0 <= i_last_ev_age (GetInfo s ty now)
  | _ => i_last_ev_age (GetInfo s ty now) = -1
  end.
Proof.
  intros id0 c os ty now Hnow Hos s.
  assert (Hts : 0 <= last_ev_ts s <= now).
  { apply run_ts_upto; [simpl; lia | exact Hos]. }
  unfold HandleEventRead, GetInfo; simpl.
  destruct (Z.eqb_spec (last_ev_ts s) 0) as [E|E].
  - rewrite E. reflexivity.
  - destruct (Z.gtb_spec (last_ev_ts s) 0); [split; [reflexivity | lia] | lia].
Qed.

Definition trace_events : list op :=
  [OpInput kChange true 3; OpSetConfig bad_mode_payload; OpInput kChange false 8].

Lemma HandleEventRead_GetInfo_agree_witness :
  i_last_ev (GetInfo (run ssw0 trace_events) 4 10) = 1 /\
  0 <= i_last_ev_age (GetInfo (run ssw0 trace_events) 4 10).
Proof.
  exact (HandleEventRead_GetInfo_agree 1 cfg0 trace_events 4 10 ltac:(lia)
           ltac:(repeat constructor; lia)).
Defined.

(** SetConfig then GetInfo: after a successful SetConfig, GetInfo reports
    the payload's in_mode, and the payload's name when one was given (the
    stored name otherwise). *)
Theorem SetConfig_GetInfo_roundtrip : forall s p rr s' ty now,
  SetConfig s p = (StatusOK, rr, s') ->
  p_in_mode p = Some (i_in_mode (GetInfo s' ty now)) /\
  i_name (GetInfo s' ty now) =
    match p_name p with Some n => n | None => name (cfg s) end.
Proof.
  intros s p rr s' ty now H. unfold SetConfig in H.
  destruct (match p_name p with Some n => _ | None => false end); [discriminate|].
  destruct (p_in_mode p) as [m|] eqn:Em; [|discriminate].
  destruct ((m <? 0) || (m >? 2)); [discriminate|].
  destruct (p_name p) as [n|].
  - destruct (String.eqb_spec n (name (cfg s))) as [E|E]; simpl in H;
      inversion H; subst; simpl; auto.
  - inversion H; subst; simpl; auto.
Qed.

Lemma SetConfig_GetInfo_roundtrip_witness :
  i_name (GetInfo (snd (SetConfig ssw0 porch_payload)) 4 0) = "Porch"%string.
Proof.
  exact (proj2 (SetConfig_GetInfo_roundtrip ssw0 porch_payload true
                  (snd (SetConfig ssw0 porch_payload)) 4 0 eq_refl)).
Defined.

(** SetConfig is idempotent: applying a payload that was just accepted a
    second time succeeds, reports no restart, and changes nothing. *)
Theorem SetConfig_idempotent : forall s p rr s',
  SetConfig s p = (StatusOK, rr, s') ->
  SetConfig s' p = (StatusOK, false, s').
Proof.
  intros s p rr s' H. unfold SetConfig in *.
  destruct (match p_name p with Some n => _ | None => false end) eqn:Elen;
    [discriminate|].
  destruct (p_in_mode p) as [m|] eqn:Em; [|discriminate].
  destruct ((m <? 0) || (m >? 2)); [discriminate|].
  destruct (p_name p) as [n|].
  - destruct (String.eqb_spec n (name (cfg s))) as [E|E]; simpl in H;
      inversion H; subst; simpl; rewrite String.eqb_refl; reflexivity.
  - inversion H; subst; reflexivity.
Qed.

Lemma SetConfig_idempotent_witness :
  let s' := snd (SetConfig ssw0 porch_payload) in
  SetConfig s' porch_payload = (StatusOK, false, s').
Proof.
  exact (SetConfig_idempotent ssw0 porch_payload true
           (snd (SetConfig ssw0 porch_payload)) eq_refl).
Defined.

(** SetConfig never touches the event side: whatever the payload and the
    result, the id, the last event, its timestamp and the notifications sent
    are unchanged. *)
Theorem SetConfig_keeps_event_state : forall s p,
  let s' := snd (SetConfig s p) in
  id s' = id s /\ last_ev s' = last_ev s /\ last_ev_ts s' = last_ev_ts s /\
  notifications s' = notifications s.
Proof.
  intros s p s'. subst s'.
  destruct (SetConfig_cases s p) as [-> | [rr [m [n' [-> _]]]]]; simpl; auto.
Qed.

(** The input handler never touches the id or the configuration, and it
    sends at most one notification: either the adapter is unchanged, or one
    notification is sent and the last event (in [{0,1,2}]) is stamped with
    the current uptime. *)
Theorem InputEventHandler_frame : forall s ev st now,
  let s' := InputEventHandler s ev st now in
  id s' = id s /\ cfg s' = cfg s /\
  (s' = s \/
   (notifications s' = S (notifications s) /\ last_ev_ts s' = now /\
    0 <= last_ev s' <= 2)).
Proof.
  intros s ev st now s'. subst s'.
  destruct (InputEventHandler_cases s ev st now) as [-> | [v [Hv ->]]]; simpl.
  - auto.
  - split; [reflexivity | split; [reflexivity |]]. right. repeat split; lia.
Qed.

(** A stored in_mode outside [{0,1,2}] matches no case of the switch: the
    handler then ignores every event. *)
Theorem InputEventHandler_unknown_mode : forall s ev st now,
  in_mode (cfg s) < 0 \/ 2 < in_mode (cfg s) ->
  InputEventHandler s ev st now = s.
Proof.
  intros s ev st now Hm. rewrite InputEventHandler_table.
  unfold spec_translation.
  destruct (Z.eqb_spec (in_mode (cfg s)) 0); [lia|].
  destruct (Z.eqb_spec (in_mode (cfg s)) 1); [lia|].
  destruct (Z.eqb_spec (in_mode (cfg s)) 2); [lia|].
  reflexivity.
Qed.

Definition ssw_mode5 : StatelessSwitch :=
  new_StatelessSwitch 1 {| name := "Switch 1"; in_mode := 5 |}.

Lemma InputEventHandler_unknown_mode_witness :
  InputEventHandler ssw_mode5 kSingle true 7 = ssw_mode5.
Proof.
  apply InputEventHandler_unknown_mode. simpl. lia.
Defined.

(** The configuration stays valid: from a record whose in_mode is in
    [{0,1,2}] and whose name has at most 64 characters, every sequence of
    operations keeps both properties. *)
Theorem config_stays_valid : forall s os,
  0 <= in_mode (cfg s) <= 2 -> (String.length (name (cfg s)) <= 64)%nat ->
  0 <= in_mode (cfg (run s os)) <= 2 /\ (String.length (name (cfg (run s os))) <= 64)%nat.
Proof.
  intros s os Hm Hn. apply run_cfg_valid; assumption.
Qed.

Lemma config_stays_valid_witness :
  0 <= in_mode (cfg (run ssw0 trace_events)) <= 2.
Proof.
  apply (proj1 (config_stays_valid ssw0 trace_events ltac:(simpl; lia)
                  ltac:(vm_compute; lia))).
Defined.

Lemma run_name_len : forall os s,
  (String.length (name (cfg s)) <= 64)%nat ->
  (String.length (name (cfg (run s os))) <= 64)%nat.
Proof.
  induction os as [|o os IH]; intros s Hn; simpl; [exact Hn|].
  apply IH; destruct o as [ev st now | p | | ]; simpl; auto.
  - destruct (InputEventHandler_cases s ev st now) as [-> | [v [_ ->]]]; auto.
  - destruct (SetConfig_cases s p) as [-> | [rr [m [n' [-> [_ [_ Hn']]]]]]]; simpl; auto.
    destruct Hn' as [-> | [_ Hl]]; auto.
Qed.

(** The characteristics Init registers only ever report values within
    their declared bounds: for an adapter with id in [1, 255] built from a
    configuration whose name has at most 64 characters, on every state
    reached by any operations, the name stays within its maximum length and
    every successful read of the event and service-label-index
    characteristics lies in their declared [min, max]. *)
Theorem registered_characteristics_in_bounds : forall B S id0 c os svc ch,
  Init B S true id0 = (StatusOK, Some svc) ->
  1 <= id0 <= 255 ->
  (String.length (name c) <= 64)%nat ->
  In (Some ch) (hap_chars_of svc) ->
  let s := run (new_StatelessSwitch id0 c) os in
  match ch with
  | StringCharacteristic _ _ max_len value => Z.of_nat (String.length (value s)) <= max_len
  | UInt8Characteristic _ _ mn mx _ read_handler _ =>
      forall v, read_handler s = (kHAPError_None, Some v) -> mn <= v <= mx
  end.
Proof.
  intros B S id0 c os svc ch _ Hid Hn Hin s.
  simpl in Hin.
  destruct Hin as [Hc | [Hc | [Hc | [Hc | []]]]]; inversion Hc; subst; clear Hc.
  - pose proof (run_name_len os (new_StatelessSwitch id0 c) Hn).
    cbv beta. unfold s. lia.
  - intros v Hv. unfold HandleEventRead in Hv.
    pose proof (run_last_ev_range os (new_StatelessSwitch id0 c) ltac:(simpl; lia)).
    unfold s in Hv. destruct (_ =? 0); inversion Hv; subst. lia.
  - intros v Hv. unfold HandleServiceLabelIndexRead in Hv. inversion Hv; subst.
    unfold s. rewrite run_id. simpl. unfold to_uint8. rewrite Z.mod_small; lia.
Qed.

Lemma registered_characteristics_in_bounds_witness : 1 <= 1 <= 255.
Proof.
  exact (registered_characteristics_in_bounds 1024 4 1 cfg0 trace_events
           {| svc_iid := 1024; name_iid := 1025; ev_iid := 1026; sli_iid := 1027 |}
           (UInt8Characteristic 1027 kHAPCharacteristicType_ServiceLabelIndex 1 255 1
              HandleServiceLabelIndexRead false)
           eq_refl ltac:(lia) ltac:(apply Nat.leb_le; reflexivity)
           ltac:(simpl; right; right; left; reflexivity) 1
           ltac:(vm_compute; reflexivity)).
Defined.
